(** * LampFire: the pseudo-random flicker controller of [src/main.c]

    A shallow embedding of the firmware: the global [randreg], the six I/O
    registers the program touches and the sequence of observable actions
    (volatile register writes and blocking delays) form the machine state;
    every C function becomes a computation in a small state monad over it. *)

From Stdlib Require Import ZArith List Bool Lia.
Import ListNotations.
Local Open Scope Z_scope.

(** ** Fixed-width unsigned integers *)

(** Conversion to [uint8_t] and [uint16_t]: reduction modulo the width. *)
Definition u8 (z : Z) : Z := z mod 2 ^ 8.
Definition u16 (z : Z) : Z := z mod 2 ^ 16.

Definition is_u8 (z : Z) : Prop := 0 <= z < 2 ^ 8.
Definition is_u16 (z : Z) : Prop := 0 <= z < 2 ^ 16.

(** ** The hardware interface *)

(** The I/O registers of the ATtiny85 that [main.c] accesses. *)
Inductive ioreg : Set := DDRB | PORTB | TCCR0A | TCCR0B | OCR0A | OCR0B.

Definition ioreg_eqb (a b : ioreg) : bool :=
  match a, b with
  | DDRB, DDRB | PORTB, PORTB | TCCR0A, TCCR0A
  | TCCR0B, TCCR0B | OCR0A, OCR0A | OCR0B, OCR0B => true
  | _, _ => false
  end.

(** Bit numbers of [<avr/io.h>] for the ATtiny85; the header belongs to
    avr-libc, not to the repository. *)
Definition PB0 : Z := 0.
Definition PB1 : Z := 1.
Definition DDB0 : Z := 0.
Definition DDB1 : Z := 1.
Definition WGM00 : Z := 0.
Definition WGM01 : Z := 1.
Definition COM0B1 : Z := 5.
Definition COM0A1 : Z := 7.
Definition CS00 : Z := 0.
Definition CS02 : Z := 2.

(** [_BV(bit)] is [(1 << (bit))]. *)
Definition _BV (bit : Z) : Z := Z.shiftl 1 bit.

(** PIN definitions for the two lamp outputs. *)
Definition LAMP_0_PORT : ioreg := PORTB.
Definition LAMP_0_PIN : Z := PB0.
Definition LAMP_0_DDR : ioreg := DDRB.
Definition LAMP_0_DDR_PIN : Z := DDB0.

Definition LAMP_1_PORT : ioreg := PORTB.
Definition LAMP_1_PIN : Z := PB1.
Definition LAMP_1_DDR : ioreg := DDRB.
Definition LAMP_1_DDR_PIN : Z := DDB1.

(** Minimal duty cycle to apply to the outputs. *)
Definition LAMP_MIN_PWM : Z := 50.

(** What the outside world can observe of a run, in program order. *)
Inductive action : Set :=
| Out (r : ioreg) (v : Z)      (* a volatile store to an I/O register *)
| Delay (ms : Z).              (* [_delay_ms(ms)] *)

(** ** Machine state *)

Record machine : Set := Machine {
  randreg : Z;                 (* [uint16_t randreg] *)
  io : ioreg -> Z;             (* contents of the I/O registers *)
  actions : list action        (* what has happened so far, oldest first *)
}.

(** ** A state monad over the machine *)

Definition M (A : Type) : Type := machine -> A * machine.

Definition ret {A} (a : A) : M A := fun m => (a, m).

Definition bind {A B} (c : M A) (k : A -> M B) : M B :=
  fun m => let (a, m') := c m in k a m'.

Declare Scope lamp_scope.
Delimit Scope lamp_scope with lamp.
Notation "x <- c ;; k" := (bind c (fun x => k))
  (at level 61, c at next level, right associativity) : lamp_scope.
Notation "c ;; k" := (bind c (fun _ => k))
  (at level 61, right associativity) : lamp_scope.
Local Open Scope lamp_scope.

Definition exec {A} (c : M A) (m : machine) : machine := snd (c m).
Definition eval {A} (c : M A) (m : machine) : A := fst (c m).

(** Load and store of the global [randreg]. *)
Definition load_randreg : M Z := fun m => (randreg m, m).

Definition store_randreg (v : Z) : M unit :=
  fun m => (tt, Machine (u16 v) (io m) (actions m)).

(** Load and store of an I/O register; a store is observable. *)
Definition upd (f : ioreg -> Z) (r : ioreg) (v : Z) : ioreg -> Z :=
  fun r' => if ioreg_eqb r' r then v else f r'.

Definition inp (r : ioreg) : M Z := fun m => (io m r, m).

Definition out (r : ioreg) (v : Z) : M unit :=
  fun m => (tt, Machine (randreg m) (upd (io m) r (u8 v))
                        (actions m ++ [Out r (u8 v)])).

(** [reg |= mask] and [reg &= mask] on an I/O register. *)
Definition or_assign (r : ioreg) (mask : Z) : M unit :=
  v <- inp r ;; out r (Z.lor v mask).

Definition and_assign (r : ioreg) (mask : Z) : M unit :=
  v <- inp r ;; out r (Z.land v mask).

(** [_delay_ms]: blocks for [ms] milliseconds. *)
Definition _delay_ms (ms : Z) : M unit :=
  fun m => (tt, Machine (randreg m) (io m) (actions m ++ [Delay ms])).

(** Helper macros to turn the lamps on and off. *)
Definition LAMP_0_ON : M unit := or_assign LAMP_0_PORT (_BV LAMP_0_PIN).
Definition LAMP_0_OFF : M unit := and_assign LAMP_0_PORT (Z.lnot (_BV LAMP_0_PIN)).
Definition LAMP_1_ON : M unit := or_assign LAMP_1_PORT (_BV LAMP_1_PIN).
Definition LAMP_1_OFF : M unit := and_assign LAMP_1_PORT (Z.lnot (_BV LAMP_1_PIN)).

(** ** The pseudo-random generator *)

(** [if (reg & mask) newbit = v;] and [if (reg & mask) newbit ^= 1;] *)
Definition tap_set (reg mask newbit : Z) : Z :=
  if Z.land reg mask =? 0 then newbit else 1.

Definition tap_xor (reg mask newbit : Z) : Z :=
  if Z.land reg mask =? 0 then newbit else Z.lxor newbit 1.

Definition pseudorandom16 : M Z :=
  let newbit := 0 in
  r <- load_randreg ;;
  (if r =? 0 then store_randreg 1 else ret tt) ;;
  r <- load_randreg ;;
  let newbit := tap_set r 0x8000 newbit in
  let newbit := tap_xor r 0x4000 newbit in
  let newbit := tap_xor r 0x1000 newbit in
  let newbit := tap_xor r 0x0008 newbit in
  store_randreg (Z.shiftl r 1 + newbit) ;;
  load_randreg.

(** The pure content of one draw, read off [pseudorandom16]. *)
Definition zero_guard (s : Z) : Z := if s =? 0 then 1 else s.

Definition feedback (s : Z) : Z :=
  tap_xor s 0x0008 (tap_xor s 0x1000 (tap_xor s 0x4000 (tap_set s 0x8000 0))).

Definition lfsr_next (s : Z) : Z :=
  let g := zero_guard s in u16 (Z.shiftl g 1 + feedback g).

(** The feedback bit as the specification words it. *)
Definition xor_of_taps (s : Z) : Z :=
  Z.b2z (xorb (xorb (xorb (Z.testbit s 15) (Z.testbit s 14))
                    (Z.testbit s 12)) (Z.testbit s 3)).

(** [n] successive draws, first one first. *)
Fixpoint draws (n : nat) : M (list Z) :=
  match n with
  | O => ret []
  | S n' => d <- pseudorandom16 ;; ds <- draws n' ;; ret (d :: ds)
  end.

(** The draw sequence as a function of the initial state and the count. *)
Definition lfsr_seq (s0 : Z) (n : nat) : list Z :=
  map (fun k => Nat.iter (S k) lfsr_next s0) (seq 0 n).

(** ** The flicker controller *)

(** Both operands of [%] are unsigned, so it is the mathematical modulo. *)
Definition get_duty_cycle : M Z :=
  lamp_duty_cycle <- pseudorandom16 ;;
  let lamp_duty_cycle := u16 (lamp_duty_cycle mod 255) in
  let lamp_duty_cycle :=
    if lamp_duty_cycle <? LAMP_MIN_PWM then u16 LAMP_MIN_PWM
    else lamp_duty_cycle in
  ret (u8 lamp_duty_cycle).

(** The duty-cycle derivation applied to a draw [D], as the specification
    words it. *)
Definition floor_duty (D : Z) : Z := Z.max 50 (D mod 255).

(** [main], lines 136-162: everything before the application loop. *)
Definition startup : M unit :=
  _delay_ms 100 ;;
  or_assign LAMP_0_DDR (_BV LAMP_0_DDR_PIN) ;;
  or_assign LAMP_1_DDR (_BV LAMP_1_DDR_PIN) ;;
  LAMP_0_ON ;;
  _delay_ms 750 ;;
  LAMP_0_OFF ;;
  LAMP_1_ON ;;
  _delay_ms 750 ;;
  LAMP_1_OFF ;;
  or_assign TCCR0A (_BV COM0A1) ;;
  or_assign TCCR0A (_BV COM0B1) ;;
  or_assign TCCR0A (_BV WGM00) ;;
  or_assign TCCR0A (_BV WGM01) ;;
  or_assign TCCR0B (_BV CS00) ;;
  or_assign TCCR0B (_BV CS02) ;;
  out OCR0A LAMP_MIN_PWM ;;
  out OCR0B LAMP_MIN_PWM.

(** Lines 168-169: the two compare registers get a duty cycle each. *)
Definition set_duty_cycles : M unit :=
  d <- get_duty_cycle ;; out OCR0A d ;;
  d <- get_duty_cycle ;; out OCR0B d.

(** Lines 175-178: [for (uint8_t i = 0; i < random_cycle_delay; i++)
    _delay_ms(1U);].  The counter wraps at 256, so the loop need not end for
    every bound; [fuel] limits the number of times the condition is tested
    and [None] means it ran out. *)
Fixpoint for_delay (fuel : nat) (i random_cycle_delay : Z) (m : machine)
  : option machine :=
  match fuel with
  | O => None
  | S fuel' =>
      if i <? random_cycle_delay
      then for_delay fuel' (u8 (i + 1)) random_cycle_delay
                     (exec (_delay_ms 1) m)
      else Some m
  end.

(** Lines 173-178: the random cycle delay. *)
Definition random_delay (fuel : nat) (m : machine) : option machine :=
  let (random_cycle_delay, m) := pseudorandom16 m in
  let random_cycle_delay := u16 (random_cycle_delay mod 50) in
  for_delay fuel 0 random_cycle_delay m.

(** One pass through the body of [while(1)]. *)
Definition loop_body (fuel : nat) (m : machine) : option machine :=
  random_delay fuel (exec set_duty_cycles m).

(** The first [n] passes of the application loop. *)
Fixpoint main_loop (fuel : nat) (n : nat) (m : machine) : option machine :=
  match n with
  | O => Some m
  | S n' =>
      match loop_body fuel m with
      | Some m' => main_loop fuel n' m'
      | None => None
      end
  end.

(** [main] up to the end of the [n]-th pass of its loop. *)
Definition main (fuel : nat) (n : nat) (m : machine) : option machine :=
  main_loop fuel n (exec startup m).

(** The machine when [main] is entered after power-on: [randreg] has static
    storage and no initializer, so it holds zero; the six I/O registers hold
    their reset value, which the ATtiny85 defines as zero for each. *)
Definition power_on : machine := Machine 0 (fun _ => 0) [].

(** ** Observing the lamps *)

(** A lamp is lit while its bit of the port register is set. *)
Definition lamp_0_lit (port : Z) : bool := Z.testbit port LAMP_0_PIN.
Definition lamp_1_lit (port : Z) : bool := Z.testbit port LAMP_1_PIN.

(** The waits of a run, each with its length and the lamps lit meanwhile,
    given the port contents before the first action. *)
Fixpoint windows (port : Z) (acts : list action) : list (Z * bool * bool) :=
  match acts with
  | [] => []
  | Out r v :: rest => windows (if ioreg_eqb r PORTB then v else port) rest
  | Delay ms :: rest =>
      (ms, lamp_0_lit port, lamp_1_lit port) :: windows port rest
  end.

(** The byte [v] with bit [b] set, and with bit [b] cleared. *)
Definition set_bit (v b : Z) : Z := u8 (Z.lor v (2 ^ b)).
Definition clear_bit (v b : Z) : Z := u8 (Z.land v (Z.lnot (2 ^ b))).

(** ** Measuring a run *)

(** The time a list of actions spends waiting, in milliseconds. *)
Fixpoint total_delay (acts : list action) : Z :=
  match acts with
  | [] => 0
  | Delay ms :: rest => ms + total_delay rest
  | Out _ _ :: rest => total_delay rest
  end.

(** The number of stores to register [r] among some actions. *)
Fixpoint stores_to (r : ioreg) (acts : list action) : nat :=
  match acts with
  | [] => O
  | Out r' _ :: rest =>
      if ioreg_eqb r' r then S (stores_to r rest) else stores_to r rest
  | Delay _ :: rest => stores_to r rest
  end.

(** An action that is a store of a duty cycle in [LAMP_MIN_PWM, 254] to a
    compare register, or a wait of one millisecond. *)
Definition loop_action (a : action) : bool :=
  match a with
  | Out OCR0A v | Out OCR0B v => (LAMP_MIN_PWM <=? v) && (v <=? 254)
  | Out _ _ => false
  | Delay ms => ms =? 1
  end.

(** An action that does not store a duty cycle outside [LAMP_MIN_PWM, 254]
    to a compare register. *)
Definition duty_store_ok (a : action) : bool :=
  match a with
  | Out OCR0A v | Out OCR0B v => (LAMP_MIN_PWM <=? v) && (v <=? 254)
  | _ => true
  end.

(** ** The cycle of the generator *)

(** With the generator at [s], [k] draws after it left [s0]: the number of
    draws after which it is first back at [s0], if no more than [fuel]
    further draws are needed. *)
Fixpoint first_return (fuel : nat) (s0 s k : Z) : option Z :=
  match fuel with
  | O => None
  | S fuel' =>
      if s =? s0 then Some k
      else first_return fuel' s0 (lfsr_next s) (k + 1)
  end.

(** The number of non-zero 16-bit states. *)
Definition lfsr_period : nat := Z.to_nat 65535.

(** * Properties *)

(** ** Bits and ranges *)

Lemma u16_range (z : Z) : is_u16 (u16 z).
Proof. unfold is_u16, u16. apply Z.mod_pos_bound. reflexivity. Qed.

Lemma u8_range (z : Z) : is_u8 (u8 z).
Proof. unfold is_u8, u8. apply Z.mod_pos_bound. reflexivity. Qed.

Lemma u16_small (z : Z) : is_u16 z -> u16 z = z.
Proof. unfold is_u16, u16. intros H. now apply Z.mod_small. Qed.

Lemma u8_small (z : Z) : is_u8 z -> u8 z = z.
Proof. unfold is_u8, u8. intros H. now apply Z.mod_small. Qed.

(** Masking with a single bit tests that bit. *)
Lemma land_pow2_eqb (s k : Z) :
  0 <= k -> (Z.land s (2 ^ k) =? 0) = negb (Z.testbit s k).
Proof.
  intros Hk. destruct (Z.testbit s k) eqn:Hb; simpl.
  - apply Z.eqb_neq. intros H0.
    assert (Hbit : Z.testbit (Z.land s (2 ^ k)) k = true).
    { rewrite Z.land_spec, Hb, Z.pow2_bits_true by assumption. reflexivity. }
    rewrite H0, Z.bits_0 in Hbit. discriminate.
  - apply Z.eqb_eq. apply Z.bits_inj'. intros n Hn.
    rewrite Z.land_spec, Z.bits_0, Z.pow2_bits_eqb by assumption.
    destruct (Z.eqb_spec k n) as [->|_].
    + now rewrite Hb.
    + apply andb_false_r.
Qed.

Lemma tap_set_bit (s k nb : Z) :
  0 <= k -> tap_set s (2 ^ k) nb = if Z.testbit s k then 1 else nb.
Proof.
  intros Hk. unfold tap_set. rewrite land_pow2_eqb by assumption.
  now destruct (Z.testbit s k).
Qed.

Lemma tap_xor_bit (s k nb : Z) :
  0 <= k -> tap_xor s (2 ^ k) nb = if Z.testbit s k then Z.lxor nb 1 else nb.
Proof.
  intros Hk. unfold tap_xor. rewrite land_pow2_eqb by assumption.
  now destruct (Z.testbit s k).
Qed.

(** The if-chain of [pseudorandom16] computes the XOR of the four taps. *)
Lemma feedback_xor_of_taps (s : Z) : feedback s = xor_of_taps s.
Proof.
  unfold feedback, xor_of_taps.
  change 0x8000 with (2 ^ 15). change 0x4000 with (2 ^ 14).
  change 0x1000 with (2 ^ 12). change 0x0008 with (2 ^ 3).
  rewrite tap_set_bit, !tap_xor_bit by lia.
  destruct (Z.testbit s 15), (Z.testbit s 14), (Z.testbit s 12),
    (Z.testbit s 3); reflexivity.
Qed.

Lemma feedback_bit (s : Z) : feedback s = 0 \/ feedback s = 1.
Proof.
  rewrite feedback_xor_of_taps. unfold xor_of_taps.
  destruct (xorb _ _); simpl; auto.
Qed.

(** ** One draw *)

(** [pseudorandom16] stores and returns [lfsr_next] of the old state and
    leaves the rest of the machine alone. *)
Lemma pseudorandom16_run (m : machine) :
  pseudorandom16 m =
  (lfsr_next (randreg m), Machine (lfsr_next (randreg m)) (io m) (actions m)).
Proof.
  unfold pseudorandom16, lfsr_next, zero_guard, feedback, bind, load_randreg.
  destruct (randreg m =? 0) eqn:Hz; reflexivity.
Qed.

Lemma lfsr_next_range (s : Z) : is_u16 (lfsr_next s).
Proof. apply u16_range. Qed.

Lemma zero_guard_range (s : Z) : is_u16 s -> 1 <= zero_guard s < 2 ^ 16.
Proof.
  unfold is_u16, zero_guard. intros H.
  destruct (Z.eqb_spec s 0); lia.
Qed.

(** A draw never produces zero: the shift loses the whole state only at
    [0x8000], and there the feedback bit is set. *)
Lemma lfsr_next_nonzero (s : Z) : is_u16 s -> lfsr_next s <> 0.
Proof.
  intros Hs. pose proof (zero_guard_range s Hs) as Hg.
  unfold lfsr_next, u16. cbv zeta. set (g := zero_guard s) in *.
  rewrite Z.shiftl_mul_pow2 by lia. change (2 ^ 1) with 2.
  change (2 ^ 16) with 65536 in *.
  intros H0.
  destruct (feedback_bit g) as [Hf|Hf].
  - assert (Hg' : g = 32768).
    { rewrite Hf in H0. apply Z.mod_divide in H0; [|lia].
      destruct H0 as [q Hq]. lia. }
    rewrite Hg' in Hf. vm_compute in Hf. discriminate.
  - rewrite Hf in H0. apply Z.mod_divide in H0; [|lia].
    destruct H0 as [q Hq]. lia.
Qed.

(** Two draws in a row never give the same value. *)
Lemma lfsr_next_moves (d : Z) : is_u16 d -> lfsr_next d <> d.
Proof.
  intros Hd H. unfold is_u16 in Hd. change (2 ^ 16) with 65536 in Hd.
  destruct (Z.eqb_spec d 0) as [->|Hnz].
  - vm_compute in H. discriminate.
  - unfold lfsr_next, zero_guard, u16 in H. cbv zeta in H.
    destruct (Z.eqb_spec d 0) as [|_]; [contradiction|].
    rewrite Z.shiftl_mul_pow2 in H by lia. change (2 ^ 1) with 2 in H.
    change (2 ^ 16) with 65536 in H.
    destruct (feedback_bit d) as [Hf|Hf]; rewrite Hf in H.
    + pose proof (Z.div_mod (d * 2 + 0) 65536) as Hq. lia.
    + pose proof (Z.div_mod (d * 2 + 1) 65536) as Hq.
      assert (Hd' : d = 65535) by lia.
      rewrite Hd' in Hf. vm_compute in Hf. discriminate.
Qed.

Lemma eval_pseudorandom16 (m : machine) :
  eval pseudorandom16 m = lfsr_next (randreg m).
Proof. unfold eval. now rewrite pseudorandom16_run. Qed.

Lemma exec_pseudorandom16 (m : machine) :
  exec pseudorandom16 m =
  Machine (lfsr_next (randreg m)) (io m) (actions m).
Proof. unfold exec. now rewrite pseudorandom16_run. Qed.

(** ** Sequences of draws *)

Lemma iter_lfsr_range (n : nat) (s : Z) :
  is_u16 s -> is_u16 (Nat.iter n lfsr_next s).
Proof.
  intros Hs. destruct n as [|n]; simpl.
  - exact Hs.
  - apply lfsr_next_range.
Qed.

Lemma lfsr_seq_succ (s : Z) (n : nat) :
  lfsr_seq s (S n) = lfsr_next s :: lfsr_seq (lfsr_next s) n.
Proof.
  unfold lfsr_seq. rewrite <- cons_seq, <- seq_shift, map_cons, map_map.
  f_equal. apply map_ext. intros k.
  now rewrite (Nat.iter_succ_r (S k)).
Qed.

Lemma draws_run (n : nat) (m : machine) :
  draws n m =
  (lfsr_seq (randreg m) n,
   Machine (Nat.iter n lfsr_next (randreg m)) (io m) (actions m)).
Proof.
  revert m. induction n as [|n IH]; intros m.
  - destruct m; reflexivity.
  - cbn [draws]. unfold bind at 1. rewrite pseudorandom16_run.
    unfold bind at 1. rewrite IH. cbn [randreg io actions].
    unfold ret. now rewrite lfsr_seq_succ, Nat.iter_succ_r.
Qed.

(** C1: one draw takes the feedback bit to be the XOR of bits 15, 14, 12 and
    3 of the zero-guarded state [s], stores [((s << 1) + feedback) mod 2^16]
    in [randreg] and returns that same value; nothing else changes. *)
Theorem pseudorandom16_feedback_shift (m : machine) :
  let s := zero_guard (randreg m) in
  let newbit := xor_of_taps s in
  let s' := (Z.shiftl s 1 + newbit) mod 2 ^ 16 in
  pseudorandom16 m = (s', Machine s' (io m) (actions m)) /\
  randreg (exec pseudorandom16 m) = eval pseudorandom16 m.
Proof.
  cbv zeta. rewrite <- feedback_xor_of_taps.
  rewrite eval_pseudorandom16, exec_pseudorandom16, pseudorandom16_run.
  split; reflexivity.
Qed.

(** C5: the three test vectors of the generator.  From [0x8000] the feedback
    bit is 1 and the new state [0x0001]; from [0x4000] the feedback bit is 1
    and the new state [0x8001]; from [0x0000] the guard makes the effective
    input [0x0001], whose feedback bit is 0, and the new state is [0x0002]. *)
Theorem pseudorandom16_test_vectors (i : ioreg -> Z) (a : list action) :
  (feedback 0x8000 = 1 /\
   pseudorandom16 (Machine 0x8000 i a) = (0x0001, Machine 0x0001 i a)) /\
  (feedback 0x4000 = 1 /\
   pseudorandom16 (Machine 0x4000 i a) = (0x8001, Machine 0x8001 i a)) /\
  (zero_guard 0x0000 = 0x0001 /\ feedback 0x0001 = 0 /\
   pseudorandom16 (Machine 0x0000 i a) = (0x0002, Machine 0x0002 i a)).
Proof. repeat split; reflexivity. Qed.

(** C10: from every 16-bit state a draw returns, and stores, a non-zero
    value; in particular state 0 gives 2 and state [0x8000], where the shift
    alone leaves nothing, gives 1. *)
Theorem pseudorandom16_never_zero (m : machine) :
  is_u16 (randreg m) ->
  eval pseudorandom16 m <> 0 /\
  randreg (exec pseudorandom16 m) <> 0 /\
  eval pseudorandom16 (Machine 0 (io m) (actions m)) = 2 /\
  eval pseudorandom16 (Machine 0x8000 (io m) (actions m)) = 1.
Proof.
  intros Hs. rewrite eval_pseudorandom16, exec_pseudorandom16.
  cbn [randreg]. repeat split; try reflexivity;
    now apply lfsr_next_nonzero.
Qed.

Lemma pseudorandom16_never_zero_witness :
  is_u16 (randreg (Machine 0x8000 (fun _ => 0) [])) /\
  eval pseudorandom16 (Machine 0x8000 (fun _ => 0) []) <> 0.
Proof.
  split.
  - unfold is_u16; simpl; lia.
  - apply (pseudorandom16_never_zero (Machine 0x8000 (fun _ => 0) [])).
    unfold is_u16; simpl; lia.
Defined.

(** C3: when [randreg] is 0 the draw first replaces it by 1, so it is the
    draw from state 1 and returns 2; and however many draws follow, the
    state is never 0 again. *)
Theorem zero_guard_fires (m : machine) :
  randreg m = 0 ->
  pseudorandom16 m = pseudorandom16 (Machine 1 (io m) (actions m)) /\
  eval pseudorandom16 m = 2 /\
  forall n : nat, randreg (exec (draws (S n)) m) <> 0.
Proof.
  intros H0. repeat split.
  - rewrite !pseudorandom16_run. cbn [randreg io actions]. now rewrite H0.
  - rewrite eval_pseudorandom16, H0. reflexivity.
  - intros n. unfold exec. rewrite draws_run. cbn [snd randreg Nat.iter].
    apply lfsr_next_nonzero, iter_lfsr_range.
    rewrite H0. unfold is_u16. lia.
Qed.

Lemma zero_guard_fires_witness :
  randreg (Machine 0 (fun _ => 0) []) = 0 /\
  eval pseudorandom16 (Machine 0 (fun _ => 0) []) = 2.
Proof.
  split.
  - reflexivity.
  - apply (zero_guard_fires (Machine 0 (fun _ => 0) [])). reflexivity.
Defined.

(** C9: the values of [n] successive draws are [lfsr_seq] of the initial
    [randreg] and [n], whatever the rest of the machine holds: two runs that
    start with the same [randreg] draw the same sequence. *)
Theorem draws_deterministic (n : nat) (m1 m2 : machine) :
  randreg m1 = randreg m2 ->
  eval (draws n) m1 = lfsr_seq (randreg m1) n /\
  eval (draws n) m1 = eval (draws n) m2.
Proof.
  intros H. unfold eval. rewrite !draws_run. cbn [fst].
  now rewrite H.
Qed.

Lemma draws_deterministic_witness :
  randreg (Machine 0xACE1 (fun _ => 0) []) =
  randreg (Machine 0xACE1 (fun _ => 255) [Delay 7]) /\
  eval (draws 4) (Machine 0xACE1 (fun _ => 0) []) =
  eval (draws 4) (Machine 0xACE1 (fun _ => 255) [Delay 7]).
Proof.
  split.
  - reflexivity.
  - apply (draws_deterministic 4 (Machine 0xACE1 (fun _ => 0) [])
             (Machine 0xACE1 (fun _ => 255) [Delay 7])).
    reflexivity.
Defined.

(** ** Running the controller step by step *)

Lemma exec_seq {A B} (c : M A) (k : M B) (m : machine) :
  exec (c ;; k) m = exec k (exec c m).
Proof. unfold exec, bind. destruct (c m). reflexivity. Qed.

Lemma exec_delay_ms (ms s : Z) (i : ioreg -> Z) (a : list action) :
  exec (_delay_ms ms) (Machine s i a) = Machine s i (a ++ [Delay ms]).
Proof. reflexivity. Qed.

Lemma exec_out (r : ioreg) (v s : Z) (i : ioreg -> Z) (a : list action) :
  exec (out r v) (Machine s i a) =
  Machine s (upd i r (u8 v)) (a ++ [Out r (u8 v)]).
Proof. reflexivity. Qed.

Lemma exec_or_assign (r : ioreg) (b s : Z) (i : ioreg -> Z) (a : list action) :
  0 <= b ->
  exec (or_assign r (_BV b)) (Machine s i a) =
  Machine s (upd i r (set_bit (i r) b)) (a ++ [Out r (set_bit (i r) b)]).
Proof.
  intros Hb. unfold _BV, set_bit. rewrite Z.shiftl_1_l. reflexivity.
Qed.

Lemma exec_and_assign_not
  (r : ioreg) (b s : Z) (i : ioreg -> Z) (a : list action) :
  0 <= b ->
  exec (and_assign r (Z.lnot (_BV b))) (Machine s i a) =
  Machine s (upd i r (clear_bit (i r) b)) (a ++ [Out r (clear_bit (i r) b)]).
Proof.
  intros Hb. unfold _BV, clear_bit. rewrite Z.shiftl_1_l. reflexivity.
Qed.

Lemma upd_get (f : ioreg -> Z) (r : ioreg) (v : Z) (r' : ioreg) :
  upd f r v r' = if ioreg_eqb r' r then v else f r'.
Proof. reflexivity. Qed.

Lemma testbit_set_bit (v b k : Z) :
  0 <= b -> 0 <= k < 8 ->
  Z.testbit (set_bit v b) k = Z.testbit v k || (b =? k).
Proof.
  intros Hb Hk. unfold set_bit, u8.
  rewrite Z.mod_pow2_bits_low, Z.lor_spec, Z.pow2_bits_eqb by lia.
  reflexivity.
Qed.

Lemma testbit_clear_bit (v b k : Z) :
  0 <= b -> 0 <= k < 8 ->
  Z.testbit (clear_bit v b) k = Z.testbit v k && negb (b =? k).
Proof.
  intros Hb Hk. unfold clear_bit, u8.
  rewrite Z.mod_pow2_bits_low, Z.land_spec, Z.lnot_spec, Z.pow2_bits_eqb
    by lia.
  reflexivity.
Qed.

Ltac bit_numbers :=
  cbv [LAMP_0_PIN LAMP_1_PIN LAMP_0_DDR_PIN LAMP_1_DDR_PIN
       PB0 PB1 DDB0 DDB1 WGM00 WGM01 COM0A1 COM0B1 CS00 CS02]; lia.

(** One rewriting step of a straight-line block on an explicit machine. *)
Ltac run_step :=
  first [ rewrite exec_delay_ms
        | rewrite exec_or_assign by bit_numbers
        | rewrite exec_and_assign_not by bit_numbers
        | rewrite exec_out ];
  rewrite ?upd_get; cbn [ioreg_eqb].

(** ** Duty cycles *)

Lemma floor_duty_range (D : Z) : 50 <= floor_duty D <= 254.
Proof.
  unfold floor_duty. pose proof (Z.mod_pos_bound D 255). lia.
Qed.

Lemma get_duty_cycle_run (m : machine) :
  get_duty_cycle m =
  (floor_duty (lfsr_next (randreg m)),
   Machine (lfsr_next (randreg m)) (io m) (actions m)).
Proof.
  unfold get_duty_cycle, bind. rewrite pseudorandom16_run. unfold ret.
  f_equal. set (D := lfsr_next (randreg m)).
  pose proof (Z.mod_pos_bound D 255 ltac:(lia)) as Hr.
  unfold floor_duty, LAMP_MIN_PWM.
  rewrite (u16_small (D mod 255)) by (unfold is_u16; lia).
  destruct (Z.ltb_spec (D mod 255) 50) as [Hlt|Hge].
  - rewrite Z.max_l by lia. reflexivity.
  - rewrite Z.max_r by lia. apply u8_small. unfold is_u8. lia.
Qed.

Lemma set_duty_cycles_run (m : machine) :
  let d1 := lfsr_next (randreg m) in
  let d2 := lfsr_next d1 in
  set_duty_cycles m =
  (tt, Machine d2
         (upd (upd (io m) OCR0A (floor_duty d1)) OCR0B (floor_duty d2))
         (actions m ++ [Out OCR0A (floor_duty d1); Out OCR0B (floor_duty d2)])).
Proof.
  cbv zeta. unfold set_duty_cycles.
  unfold bind at 1. rewrite get_duty_cycle_run.
  unfold bind at 1. unfold out at 1. cbn [randreg io actions].
  unfold bind at 1. rewrite get_duty_cycle_run. cbn [randreg io actions].
  unfold out.  cbn [randreg io actions].
  rewrite !u8_small, <- app_assoc; [reflexivity | |];
    pose proof (floor_duty_range (lfsr_next (randreg m)));
    pose proof (floor_duty_range (lfsr_next (lfsr_next (randreg m))));
    unfold is_u8; lia.
Qed.

(** ** The random delay *)

Lemma for_delay_run (fuel : nat) :
  forall (i d : Z) (m : machine),
    0 <= i <= d -> d < 256 -> (Z.to_nat (d - i) < fuel)%nat ->
    for_delay fuel i d m =
    Some (Machine (randreg m) (io m)
                  (actions m ++ repeat (Delay 1) (Z.to_nat (d - i)))).
Proof.
  induction fuel as [|fuel IH]; intros i d m Hi Hd Hf; [lia|].
  cbn [for_delay]. destruct (Z.ltb_spec i d) as [Hlt|Hge].
  - rewrite IH.
    + unfold exec, _delay_ms. cbn [snd randreg io actions].
      rewrite u8_small by (unfold is_u8; lia).
      replace (Z.to_nat (d - i)) with (S (Z.to_nat (d - (i + 1)))) by lia.
      cbn [repeat]. now rewrite <- app_assoc.
    + rewrite u8_small by (unfold is_u8; lia). lia.
    + assumption.
    + rewrite u8_small by (unfold is_u8; lia). lia.
  - replace (d - i) with 0 by lia. cbn [Z.to_nat repeat].
    rewrite app_nil_r. now destruct m.
Qed.

Lemma random_delay_run (fuel : nat) (m : machine) :
  (50 <= fuel)%nat ->
  let D := lfsr_next (randreg m) in
  random_delay fuel m =
  Some (Machine D (io m) (actions m ++ repeat (Delay 1) (Z.to_nat (D mod 50)))).
Proof.
  intros Hf. cbv zeta. unfold random_delay. rewrite pseudorandom16_run.
  set (D := lfsr_next (randreg m)).
  pose proof (Z.mod_pos_bound D 50 ltac:(lia)) as Hr.
  rewrite (u16_small (D mod 50)) by (unfold is_u16; lia).
  rewrite for_delay_run by lia.
  cbn [randreg io actions]. now rewrite Z.sub_0_r.
Qed.

Lemma loop_body_run (fuel : nat) (m : machine) :
  (50 <= fuel)%nat ->
  let d1 := lfsr_next (randreg m) in
  let d2 := lfsr_next d1 in
  let d3 := lfsr_next d2 in
  loop_body fuel m =
  Some (Machine d3
          (upd (upd (io m) OCR0A (floor_duty d1)) OCR0B (floor_duty d2))
          (actions m ++
           [Out OCR0A (floor_duty d1); Out OCR0B (floor_duty d2)] ++
           repeat (Delay 1) (Z.to_nat (d3 mod 50)))).
Proof.
  intros Hf. cbv zeta. unfold loop_body, exec.
  pose proof (set_duty_cycles_run m) as Hs. cbv zeta in Hs. rewrite Hs.
  cbn [snd]. pose proof (random_delay_run fuel) as Hr. cbv zeta in Hr.
  rewrite Hr by assumption. cbn [randreg io actions].
  now rewrite <- app_assoc.
Qed.

Lemma main_loop_randreg (fuel n : nat) :
  (50 <= fuel)%nat ->
  forall m : machine,
  exists m' : machine,
    main_loop fuel n m = Some m' /\
    randreg m' = Nat.iter (3 * n) lfsr_next (randreg m).
Proof.
  intros Hf. induction n as [|n IH]; intros m.
  - exists m. split; reflexivity.
  - cbn [main_loop]. pose proof (loop_body_run fuel m Hf) as Hb.
    cbv zeta in Hb. rewrite Hb.
    match goal with |- context [main_loop fuel n ?x] =>
      destruct (IH x) as [m' [Hrun Hreg]] end.
    exists m'. split; [exact Hrun|].
    rewrite Hreg. cbn [randreg].
    replace (3 * S n)%nat with (3 * n + 3)%nat by lia.
    rewrite Nat.iter_add. reflexivity.
Qed.

Lemma startup_run (s : Z) (i : ioreg -> Z) (a : list action) :
  let d1 := set_bit (i DDRB) DDB0 in
  let d2 := set_bit d1 DDB1 in
  let p1 := set_bit (i PORTB) PB0 in
  let p2 := clear_bit p1 PB0 in
  let p3 := set_bit p2 PB1 in
  let p4 := clear_bit p3 PB1 in
  let a1 := set_bit (i TCCR0A) COM0A1 in
  let a2 := set_bit a1 COM0B1 in
  let a3 := set_bit a2 WGM00 in
  let a4 := set_bit a3 WGM01 in
  let b1 := set_bit (i TCCR0B) CS00 in
  let b2 := set_bit b1 CS02 in
  exists i' : ioreg -> Z,
    exec startup (Machine s i a) =
    Machine s i'
      (a ++ [Delay 100; Out DDRB d1; Out DDRB d2;
             Out PORTB p1; Delay 750; Out PORTB p2;
             Out PORTB p3; Delay 750; Out PORTB p4;
             Out TCCR0A a1; Out TCCR0A a2; Out TCCR0A a3; Out TCCR0A a4;
             Out TCCR0B b1; Out TCCR0B b2;
             Out OCR0A 50; Out OCR0B 50]) /\
    i' DDRB = d2 /\ i' PORTB = p4 /\ i' TCCR0A = a4 /\ i' TCCR0B = b2 /\
    i' OCR0A = 50 /\ i' OCR0B = 50.
Proof.
  cbv zeta.
  unfold startup, LAMP_0_ON, LAMP_0_OFF, LAMP_1_ON, LAMP_1_OFF,
    LAMP_0_DDR, LAMP_1_DDR, LAMP_0_PORT, LAMP_1_PORT,
    LAMP_0_PIN, LAMP_1_PIN, LAMP_0_DDR_PIN, LAMP_1_DDR_PIN.
  repeat (rewrite exec_seq; run_step). run_step.
  rewrite <- !app_assoc. cbn [app].
  eexists. split; [reflexivity|].
  rewrite !upd_get. cbn [ioreg_eqb]. repeat split; reflexivity.
Qed.

(** C2: the duty-cycle derivation returns [max(50, D mod 255)] for the draw
    [D] it takes; the result is never below 50 and never above 254, and it
    is [D mod 255] itself whenever that is at least 50. *)
Theorem get_duty_cycle_floor (m : machine) :
  let D := eval pseudorandom16 m in
  get_duty_cycle m = (Z.max 50 (D mod 255), exec pseudorandom16 m) /\
  50 <= eval get_duty_cycle m <= 254 /\
  (50 <= D mod 255 -> eval get_duty_cycle m = D mod 255).
Proof.
  cbv zeta.
  assert (He : eval get_duty_cycle m = floor_duty (lfsr_next (randreg m))).
  { unfold eval. now rewrite get_duty_cycle_run. }
  rewrite He, get_duty_cycle_run, eval_pseudorandom16, exec_pseudorandom16.
  split; [reflexivity|]. split.
  - apply floor_duty_range.
  - intros H. unfold floor_duty. lia.
Qed.

Lemma get_duty_cycle_floor_witness :
  50 <= eval pseudorandom16 (Machine 100 (fun _ => 0) []) mod 255 /\
  eval get_duty_cycle (Machine 100 (fun _ => 0) []) = 200.
Proof.
  split.
  - vm_compute. discriminate.
  - apply (get_duty_cycle_floor (Machine 100 (fun _ => 0) [])).
    vm_compute. discriminate.
Defined.

(** C7: in a pass of the loop, [OCR0A] is set from one draw and [OCR0B] from
    the draw that follows it, and these two draws are never the same
    value. *)
Theorem channels_use_consecutive_draws (m : machine) :
  let d1 := eval pseudorandom16 m in
  let d2 := eval pseudorandom16 (exec pseudorandom16 m) in
  let m' := exec set_duty_cycles m in
  d1 <> d2 /\
  io m' OCR0A = Z.max 50 (d1 mod 255) /\
  io m' OCR0B = Z.max 50 (d2 mod 255) /\
  actions m' = actions m ++ [Out OCR0A (Z.max 50 (d1 mod 255));
                             Out OCR0B (Z.max 50 (d2 mod 255))] /\
  randreg m' = d2.
Proof.
  cbv zeta. rewrite !eval_pseudorandom16, exec_pseudorandom16.
  cbn [randreg]. unfold exec.
  pose proof (set_duty_cycles_run m) as Hs. cbv zeta in Hs. rewrite Hs.
  cbn [snd randreg io actions]. split.
  - intros H. symmetry in H. revert H.
    apply lfsr_next_moves, lfsr_next_range.
  - repeat split; reflexivity.
Qed.

(** C6: in a pass of the loop the delay is a fresh draw, the third of the
    pass, taken modulo 50; it lies in [0, 49], and the pass ends after
    exactly that many one-millisecond waits (none when it is 0). *)
Theorem random_delay_bound (fuel : nat) (m : machine) :
  (50 <= fuel)%nat ->
  let m2 := exec set_duty_cycles m in
  let D := eval pseudorandom16 m2 in
  let random_cycle_delay := D mod 50 in
  0 <= random_cycle_delay <= 49 /\
  D = Nat.iter 3 lfsr_next (randreg m) /\
  loop_body fuel m =
  Some (Machine D (io m2)
          (actions m2 ++ repeat (Delay 1) (Z.to_nat random_cycle_delay))).
Proof.
  intros Hf. cbv zeta. rewrite eval_pseudorandom16.
  unfold loop_body, exec.
  pose proof (set_duty_cycles_run m) as Hs. cbv zeta in Hs. rewrite Hs.
  cbn [snd randreg io actions Nat.iter].
  pose proof (random_delay_run fuel) as Hr. cbv zeta in Hr.
  rewrite Hr by assumption. cbn [randreg io actions].
  repeat split; try reflexivity;
    match goal with |- context [?x mod 50] =>
      pose proof (Z.mod_pos_bound x 50 ltac:(lia)) end; lia.
Qed.

Lemma random_delay_bound_witness :
  (50 <= 50)%nat /\
  loop_body 50 (Machine 1 (fun _ => 0) []) =
  Some (Machine 8 (upd (upd (fun _ => 0) OCR0A 50) OCR0B 50)
          ([Out OCR0A 50; Out OCR0B 50] ++ repeat (Delay 1) 8)).
Proof.
  split.
  - lia.
  - apply (random_delay_bound 50 (Machine 1 (fun _ => 0) [])). lia.
Defined.

(** C8: started with both lamps off, as they are at power-on, the startup
    performs exactly these actions in this order: the 100 ms settle wait;
    both lamp pins made outputs; lamp 0 on, 750 ms, lamp 0 off; lamp 1 on,
    750 ms, lamp 1 off; the six writes that configure the timer; both compare
    registers set to 50.  During the first 750 ms only lamp 0 is lit, during
    the second only lamp 1, and the loop is entered with both lamps off,
    both pins outputs and both compare registers at 50. *)
Theorem startup_sequence (m : machine) :
  lamp_0_lit (io m PORTB) = false ->
  lamp_1_lit (io m PORTB) = false ->
  let m' := exec startup m in
  let d1 := set_bit (io m DDRB) DDB0 in
  let d2 := set_bit d1 DDB1 in
  let p1 := set_bit (io m PORTB) PB0 in
  let p2 := clear_bit p1 PB0 in
  let p3 := set_bit p2 PB1 in
  let p4 := clear_bit p3 PB1 in
  let a1 := set_bit (io m TCCR0A) COM0A1 in
  let a2 := set_bit a1 COM0B1 in
  let a3 := set_bit a2 WGM00 in
  let a4 := set_bit a3 WGM01 in
  let b1 := set_bit (io m TCCR0B) CS00 in
  let b2 := set_bit b1 CS02 in
  let performed :=
    [Delay 100; Out DDRB d1; Out DDRB d2;
     Out PORTB p1; Delay 750; Out PORTB p2;
     Out PORTB p3; Delay 750; Out PORTB p4;
     Out TCCR0A a1; Out TCCR0A a2; Out TCCR0A a3; Out TCCR0A a4;
     Out TCCR0B b1; Out TCCR0B b2;
     Out OCR0A 50; Out OCR0B 50] in
  actions m' = actions m ++ performed /\
  windows (io m PORTB) performed =
    [(100, false, false); (750, true, false); (750, false, true)] /\
  (Z.testbit (io m' DDRB) DDB0 = true /\
   Z.testbit (io m' DDRB) DDB1 = true) /\
  (lamp_0_lit (io m' PORTB) = false /\ lamp_1_lit (io m' PORTB) = false) /\
  (io m' OCR0A = LAMP_MIN_PWM /\ io m' OCR0B = LAMP_MIN_PWM) /\
  randreg m' = randreg m.
Proof.
  intros H0 H1. cbv zeta. destruct m as [s i a]. cbn [io actions randreg] in *.
  pose proof (startup_run s i a) as Hrun. cbv zeta in Hrun.
  destruct Hrun as [i' [Hrun [Hd [Hp [_ [_ [Ha Hb]]]]]]].
  rewrite Hrun. cbn [io actions randreg]. rewrite Hd, Hp, Ha, Hb.
  unfold lamp_0_lit, lamp_1_lit, LAMP_0_PIN, LAMP_1_PIN in *.
  cbn [windows ioreg_eqb]. unfold lamp_0_lit, lamp_1_lit, LAMP_0_PIN, LAMP_1_PIN.
  rewrite ?testbit_set_bit, ?testbit_clear_bit by bit_numbers.
  rewrite ?testbit_set_bit, ?testbit_clear_bit by bit_numbers.
  rewrite ?testbit_set_bit, ?testbit_clear_bit by bit_numbers.
  rewrite ?testbit_set_bit, ?testbit_clear_bit by bit_numbers.
  rewrite H0, H1.
  repeat split; try reflexivity.
  - unfold DDB0, DDB1. now destruct (Z.testbit (i DDRB) 0).
  - unfold DDB0, DDB1. now destruct (Z.testbit (i DDRB) 1).
Qed.

Lemma startup_sequence_witness :
  lamp_0_lit (io power_on PORTB) = false /\
  lamp_1_lit (io power_on PORTB) = false /\
  actions (exec startup power_on) =
    [Delay 100; Out DDRB 1; Out DDRB 3;
     Out PORTB 1; Delay 750; Out PORTB 0;
     Out PORTB 2; Delay 750; Out PORTB 0;
     Out TCCR0A 128; Out TCCR0A 160; Out TCCR0A 161; Out TCCR0A 163;
     Out TCCR0B 1; Out TCCR0B 5;
     Out OCR0A 50; Out OCR0B 50].
Proof.
  split; [reflexivity|]. split; [reflexivity|].
  exact (proj1 (startup_sequence power_on eq_refl eq_refl)).
Defined.

(** C4, as the code has it: [randreg] holds 0 when [main] is entered and
    the startup does not write it, so the first draw starts from 0 and, by
    the zero-guard, is the draw from 1.  From then on [randreg] is written
    by draws only: after [n] passes of the loop, each of which ends, it is
    the result of [3 * n] draws from the initial value. *)
Theorem randreg_lifecycle (fuel n : nat) (m : machine) :
  (50 <= fuel)%nat ->
  randreg power_on = 0 /\
  randreg (exec startup power_on) = 0 /\
  eval pseudorandom16 (exec startup power_on) = lfsr_next 1 /\
  randreg (exec startup m) = randreg m /\
  exists m' : machine,
    main fuel n m = Some m' /\
    randreg m' = Nat.iter (3 * n) lfsr_next (randreg m).
Proof.
  intros Hf.
  assert (Hs : forall x : machine, randreg (exec startup x) = randreg x).
  { intros [s i a]. pose proof (startup_run s i a) as Hrun. cbv zeta in Hrun.
    destruct Hrun as [i' [Hrun _]]. now rewrite Hrun. }
  split; [reflexivity|]. split; [apply Hs|].
  split; [rewrite eval_pseudorandom16, Hs; reflexivity|].
  split; [apply Hs|].
  unfold main.
  destruct (main_loop_randreg fuel n Hf (exec startup m)) as [m' [Hrun Hreg]].
  exists m'. split; [exact Hrun|]. now rewrite Hreg, Hs.
Qed.

Lemma randreg_lifecycle_witness :
  (50 <= 50)%nat /\ randreg (exec startup power_on) = 0.
Proof.
  split.
  - lia.
  - apply (randreg_lifecycle 50 1 power_on). lia.
Defined.

(** C4 as stated fails: the value [randreg] holds before the first draw is
    not a non-zero one. *)
Lemma randreg_before_first_draw_is_zero :
  ~ (randreg power_on <> 0) /\ ~ (randreg (exec startup power_on) <> 0).
Proof.
  split; intros H; apply H; reflexivity.
Qed.

(** * Further properties of the generator *)

(** ** No two non-zero states have the same successor *)

Lemma testbit_small_15 (s : Z) : 0 <= s < 32768 -> Z.testbit s 15 = false.
Proof.
  intros Hs. apply Z.testbit_false; [lia|].
  change (2 ^ 15) with 32768. now rewrite Z.div_small.
Qed.

Lemma testbit_add_bit_15 (s k : Z) :
  0 <= s < 32768 -> 0 <= k ->
  Z.testbit (s + 32768) k = xorb (Z.testbit s k) (15 =? k).
Proof.
  intros Hs Hk. change 32768 with (2 ^ 15).
  rewrite Z.add_nocarry_lxor.
  - now rewrite Z.lxor_spec, Z.pow2_bits_eqb by lia.
  - apply Z.eqb_eq. rewrite land_pow2_eqb by lia.
    now rewrite testbit_small_15.
Qed.

(** Setting bit 15 of a state flips its feedback bit. *)
Lemma feedback_flip (s : Z) :
  0 <= s < 32768 -> feedback (s + 32768) = 1 - feedback s.
Proof.
  intros Hs. rewrite !feedback_xor_of_taps. unfold xor_of_taps.
  rewrite !testbit_add_bit_15 by lia. rewrite testbit_small_15 by assumption.
  cbn [Z.eqb Pos.eqb xorb].
  destruct (Z.testbit s 14), (Z.testbit s 12), (Z.testbit s 3); reflexivity.
Qed.

Lemma lfsr_next_unguarded (s : Z) :
  s <> 0 -> lfsr_next s = (2 * s + feedback s) mod 65536.
Proof.
  intros Hs. unfold lfsr_next, zero_guard, u16.
  destruct (Z.eqb_spec s 0) as [|_]; [contradiction|].
  cbv zeta. rewrite Z.shiftl_mul_pow2 by lia.
  change (2 ^ 1) with 2. change (2 ^ 16) with 65536.
  now rewrite (Z.mul_comm s 2).
Qed.

Lemma lfsr_next_injective (a b : Z) :
  1 <= a < 65536 -> 1 <= b < 65536 ->
  lfsr_next a = lfsr_next b -> a = b.
Proof.
  intros Ha Hb H. rewrite !lfsr_next_unguarded in H by lia.
  pose proof (Z.div_mod (2 * a + feedback a) 65536 ltac:(lia)) as Da.
  pose proof (Z.div_mod (2 * b + feedback b) 65536 ltac:(lia)) as Db.
  pose proof (Z.mod_pos_bound (2 * a + feedback a) 65536 ltac:(lia)) as Ra.
  rewrite H in Da.
  set (qa := (2 * a + feedback a) / 65536) in *.
  set (qb := (2 * b + feedback b) / 65536) in *.
  set (r := (2 * b + feedback b) mod 65536) in *.
  destruct (Z_lt_le_dec a 32768) as [La|La];
    destruct (Z_lt_le_dec b 32768) as [Lb|Lb].
  - destruct (feedback_bit a) as [Fa|Fa], (feedback_bit b) as [Fb|Fb]; lia.
  - pose proof (feedback_flip (b - 32768) ltac:(lia)) as Fl.
    replace (b - 32768 + 32768) with b in Fl by lia.
    destruct (feedback_bit a) as [Fa|Fa],
      (feedback_bit (b - 32768)) as [Fb|Fb];
      destruct (Z.eq_dec a (b - 32768)) as [E|E]; try lia;
      rewrite E in Fa; lia.
  - pose proof (feedback_flip (a - 32768) ltac:(lia)) as Fl.
    replace (a - 32768 + 32768) with a in Fl by lia.
    destruct (feedback_bit b) as [Fb|Fb],
      (feedback_bit (a - 32768)) as [Fa|Fa];
      destruct (Z.eq_dec b (a - 32768)) as [E|E]; try lia;
      rewrite E in Fb; lia.
  - destruct (feedback_bit a) as [Fa|Fa], (feedback_bit b) as [Fb|Fb]; lia.
Qed.

(** ** The cycle through the non-zero states *)

Lemma iter_lfsr_nonzero (n : nat) (s : Z) :
  1 <= s < 65536 -> 1 <= Nat.iter n lfsr_next s < 65536.
Proof.
  intros Hs. destruct n as [|n]; [exact Hs|].
  rewrite Nat.iter_succ.
  assert (Hu : is_u16 (Nat.iter n lfsr_next s)).
  { apply iter_lfsr_range. unfold is_u16. lia. }
  pose proof (lfsr_next_nonzero _ Hu).
  pose proof (lfsr_next_range (Nat.iter n lfsr_next s)) as Hr.
  unfold is_u16 in Hr. lia.
Qed.

Lemma first_return_spec (fuel : nat) :
  forall s0 s k r : Z,
    first_return fuel s0 s k = Some r ->
    exists j : nat,
      r = k + Z.of_nat j /\
      Nat.iter j lfsr_next s = s0 /\
      forall i : nat, (i < j)%nat -> Nat.iter i lfsr_next s <> s0.
Proof.
  induction fuel as [|fuel IH]; intros s0 s k r H; cbn [first_return] in H;
    [discriminate|].
  destruct (Z.eqb_spec s s0) as [E|E].
  - injection H as <-. exists O. split; [lia|]. split; [exact E|].
    intros i Hi. lia.
  - apply IH in H. destruct H as [j [Hr [Hj Hmin]]].
    exists (S j). split; [lia|]. split.
    + rewrite Nat.iter_succ_r. exact Hj.
    + intros [|i] Hi; [exact E|].
      rewrite Nat.iter_succ_r. apply Hmin. lia.
Qed.

(** Started at 1, the generator is back at 1 after 65535 draws and not
    before. *)
Lemma lfsr_returns_to_1 :
  Nat.iter lfsr_period lfsr_next 1 = 1 /\
  forall i : nat, (0 < i < lfsr_period)%nat -> Nat.iter i lfsr_next 1 <> 1.
Proof.
  assert (H : first_return (Z.to_nat 70000) 1 (lfsr_next 1) 1 = Some 65535)
    by (vm_compute; reflexivity).
  apply first_return_spec in H. destruct H as [j [Hr [Hj Hmin]]].
  unfold lfsr_period. replace (Z.to_nat 65535) with (S j) by lia. split.
  - rewrite Nat.iter_succ_r. exact Hj.
  - intros [|i] Hi; [lia|]. rewrite Nat.iter_succ_r. apply Hmin. lia.
Qed.

Lemma orbit_wraps (x : nat) :
  Nat.iter (x + lfsr_period) lfsr_next 1 = Nat.iter x lfsr_next 1.
Proof.
  rewrite Nat.iter_add. now rewrite (proj1 lfsr_returns_to_1).
Qed.

Lemma orbit_injective :
  forall i j : nat,
    (i < j)%nat -> (j < lfsr_period)%nat ->
    Nat.iter i lfsr_next 1 <> Nat.iter j lfsr_next 1.
Proof.
  induction i as [|i IH]; intros j Hij Hj H.
  - apply (proj2 lfsr_returns_to_1 j); [lia|]. symmetry. exact H.
  - destruct j as [|j]; [lia|]. rewrite !Nat.iter_succ in H.
    apply lfsr_next_injective in H; try (apply iter_lfsr_nonzero; lia).
    apply (IH j); [lia|lia|exact H].
Qed.

(** Every non-zero state lies on the cycle of 1. *)
Lemma orbit_covers (t : Z) :
  1 <= t < 65536 ->
  exists i : nat, (i < lfsr_period)%nat /\ Nat.iter i lfsr_next 1 = t.
Proof.
  intros Ht.
  set (L := map (fun i => Nat.iter i lfsr_next 1) (seq 0 lfsr_period)).
  set (R := map Z.of_nat (seq 1 lfsr_period)).
  assert (HL : NoDup L).
  { apply NoDup_map_NoDup_ForallPairs; [|apply seq_NoDup].
    intros i j Hi Hj E. apply in_seq in Hi, Hj.
    destruct (Nat.lt_trichotomy i j) as [Lt|[Eq|Gt]]; [|exact Eq|].
    - exfalso. apply (orbit_injective i j); [lia|lia|exact E].
    - exfalso. apply (orbit_injective j i); [lia|lia|]. symmetry. exact E. }
  assert (HLR : incl L R).
  { intros x Hx. apply in_map_iff in Hx. destruct Hx as [i [<- _]].
    pose proof (iter_lfsr_nonzero i 1 ltac:(lia)) as Hr.
    apply in_map_iff. exists (Z.to_nat (Nat.iter i lfsr_next 1)).
    split; [lia|]. apply in_seq. unfold lfsr_period. lia. }
  assert (Hlen : (length R <= length L)%nat).
  { unfold L, R. rewrite !length_map, !length_seq. lia. }
  assert (HtR : In t R).
  { apply in_map_iff. exists (Z.to_nat t). split; [lia|].
    apply in_seq. unfold lfsr_period. lia. }
  apply (NoDup_length_incl HL Hlen HLR) in HtR.
  apply in_map_iff in HtR. destruct HtR as [i [Hi Hin]].
  apply in_seq in Hin. exists i. split; [lia|exact Hi].
Qed.

Lemma lfsr_period_on_cycle (s : Z) :
  1 <= s < 65536 ->
  Nat.iter lfsr_period lfsr_next s = s /\
  forall k : nat, (0 < k < lfsr_period)%nat -> Nat.iter k lfsr_next s <> s.
Proof.
  intros Hs. destruct (orbit_covers s Hs) as [i [Hi <-]]. split.
  - rewrite <- Nat.iter_add, (Nat.add_comm lfsr_period i), Nat.iter_add.
    now rewrite (proj1 lfsr_returns_to_1).
  - intros k Hk H. rewrite <- Nat.iter_add in H.
    destruct (Nat.lt_ge_cases (k + i) lfsr_period) as [Lt|Ge].
    + apply (orbit_injective i (k + i)); [lia|exact Lt|]. symmetry. exact H.
    + replace (k + i)%nat with ((k + i - lfsr_period) + lfsr_period)%nat in H
        by lia.
      rewrite orbit_wraps in H.
      apply (orbit_injective (k + i - lfsr_period) i); [lia|exact Hi|exact H].
Qed.

Lemma lfsr_reaches (s t : Z) :
  is_u16 s -> 1 <= t < 65536 ->
  exists k : nat, (k < lfsr_period)%nat /\ Nat.iter (S k) lfsr_next s = t.
Proof.
  intros Hs Ht.
  assert (H1 : 1 <= lfsr_next s < 65536).
  { pose proof (lfsr_next_nonzero s Hs).
    pose proof (lfsr_next_range s) as Hr. unfold is_u16 in Hr. lia. }
  destruct (orbit_covers _ H1) as [i [Hi Ei]].
  destruct (orbit_covers t Ht) as [j [Hj Ej]].
  destruct (Nat.le_gt_cases i j) as [Le|Gt].
  - exists (j - i)%nat. split; [lia|].
    rewrite Nat.iter_succ_r, <- Ei, <- Nat.iter_add.
    replace (j - i + i)%nat with j by lia. exact Ej.
  - exists (j + lfsr_period - i)%nat. split; [lia|].
    rewrite Nat.iter_succ_r, <- Ei, <- Nat.iter_add.
    replace (j + lfsr_period - i + i)%nat with (j + lfsr_period)%nat by lia.
    rewrite orbit_wraps. exact Ej.
Qed.

(** X1: two different non-zero 16-bit states never give the same draw.  The
    guard makes 0 and 1 the one pair of states that do: both draw 2. *)
Theorem pseudorandom16_injective (m1 m2 : machine) :
  1 <= randreg m1 < 65536 ->
  1 <= randreg m2 < 65536 ->
  eval pseudorandom16 m1 = eval pseudorandom16 m2 ->
  randreg m1 = randreg m2.
Proof.
  intros H1 H2. rewrite !eval_pseudorandom16.
  now apply lfsr_next_injective.
Qed.

Lemma pseudorandom16_injective_witness :
  1 <= randreg (Machine 0x1234 (fun _ => 0) []) < 65536 /\
  1 <= randreg (Machine 0x1234 (fun _ => 7) [Delay 1]) < 65536 /\
  eval pseudorandom16 (Machine 0x1234 (fun _ => 0) []) =
  eval pseudorandom16 (Machine 0x1234 (fun _ => 7) [Delay 1]) /\
  randreg (Machine 0x1234 (fun _ => 0) []) =
  randreg (Machine 0x1234 (fun _ => 7) [Delay 1]).
Proof.
  split; [cbn; lia|]. split; [cbn; lia|]. split; [reflexivity|].
  apply (pseudorandom16_injective (Machine 0x1234 (fun _ => 0) [])
           (Machine 0x1234 (fun _ => 7) [Delay 1])).
  - cbn; lia.
  - cbn; lia.
  - reflexivity.
Defined.

(** X2: the generator has full period.  From any non-zero 16-bit state,
    [randreg] is back at its starting value after exactly 65535 draws and
    at no smaller positive number of draws. *)
Theorem pseudorandom16_period (m : machine) :
  1 <= randreg m < 65536 ->
  randreg (exec (draws (Z.to_nat 65535)) m) = randreg m /\
  forall k : nat,
    (0 < k < Z.to_nat 65535)%nat ->
    randreg (exec (draws k) m) <> randreg m.
Proof.
  intros Hs. destruct (lfsr_period_on_cycle (randreg m) Hs) as [Hp Hmin].
  split.
  - unfold exec. rewrite draws_run. exact Hp.
  - intros k Hk. unfold exec. rewrite draws_run. now apply Hmin.
Qed.

Lemma pseudorandom16_period_witness :
  1 <= randreg (Machine 1 (fun _ => 0) []) < 65536 /\
  randreg (exec (draws (Z.to_nat 65535)) (Machine 1 (fun _ => 0) [])) =
  randreg (Machine 1 (fun _ => 0) []).
Proof.
  split.
  - cbn; lia.
  - apply (pseudorandom16_period (Machine 1 (fun _ => 0) [])). cbn; lia.
Defined.

(** X3: every non-zero 16-bit value is drawn.  From any 16-bit state, zero
    included, and for any [t] in [1, 65535], one of the first 65535 draws
    returns [t]. *)
Theorem pseudorandom16_reaches_every_value (m : machine) (t : Z) :
  is_u16 (randreg m) ->
  1 <= t < 65536 ->
  exists k : nat,
    (k < Z.to_nat 65535)%nat /\
    eval pseudorandom16 (exec (draws k) m) = t.
Proof.
  intros Hs Ht. destruct (lfsr_reaches (randreg m) t Hs Ht) as [k [Hk Ek]].
  exists k. split; [exact Hk|].
  rewrite eval_pseudorandom16. unfold exec. rewrite draws_run.
  cbn [snd randreg]. rewrite <- Nat.iter_succ. exact Ek.
Qed.

Lemma pseudorandom16_reaches_every_value_witness :
  is_u16 (randreg power_on) /\ 1 <= 0xFFFF < 65536 /\
  exists k : nat,
    (k < Z.to_nat 65535)%nat /\
    eval pseudorandom16 (exec (draws k) power_on) = 0xFFFF.
Proof.
  split; [unfold is_u16; cbn; lia|]. split; [lia|].
  apply (pseudorandom16_reaches_every_value power_on 0xFFFF).
  - unfold is_u16; cbn; lia.
  - lia.
Defined.

(** * Further properties of the controller *)

(** ** Measures of a list of actions *)

Lemma total_delay_app (l1 l2 : list action) :
  total_delay (l1 ++ l2) = total_delay l1 + total_delay l2.
Proof.
  induction l1 as [|[r v|ms] l1 IH]; cbn [app total_delay]; lia.
Qed.

Lemma total_delay_repeat (k : nat) :
  total_delay (repeat (Delay 1) k) = Z.of_nat k.
Proof.
  induction k as [|k IH]; cbn [repeat total_delay]; lia.
Qed.

Lemma stores_to_app (r : ioreg) (l1 l2 : list action) :
  stores_to r (l1 ++ l2) = (stores_to r l1 + stores_to r l2)%nat.
Proof.
  induction l1 as [|[r' v|ms] l1 IH]; cbn [app stores_to]; try lia.
  destruct (ioreg_eqb r' r); lia.
Qed.

Lemma stores_to_repeat (r : ioreg) (k : nat) :
  stores_to r (repeat (Delay 1) k) = O.
Proof.
  induction k as [|k IH]; cbn [repeat stores_to]; auto.
Qed.

Lemma loop_action_repeat (k : nat) :
  Forall (fun a => loop_action a = true) (repeat (Delay 1) k).
Proof.
  induction k as [|k IH]; cbn [repeat]; constructor; auto.
Qed.

Lemma loop_action_duty (D : Z) :
  loop_action (Out OCR0A (floor_duty D)) = true /\
  loop_action (Out OCR0B (floor_duty D)) = true.
Proof.
  pose proof (floor_duty_range D). unfold loop_action, LAMP_MIN_PWM.
  split; apply andb_true_intro; split; apply Z.leb_le; lia.
Qed.

Lemma loop_action_duty_store_ok (a : action) :
  loop_action a = true -> duty_store_ok a = true.
Proof.
  destruct a as [[] v|ms]; cbn [loop_action duty_store_ok]; auto.
Qed.

(** ** The passes of the loop *)

(** What [n] passes of the loop do to a machine. *)
Lemma main_loop_run (fuel : nat) :
  (50 <= fuel)%nat ->
  forall (n : nat) (m : machine),
  exists (m' : machine) (l : list action),
    main_loop fuel n m = Some m' /\
    actions m' = actions m ++ l /\
    Forall (fun a => loop_action a = true) l /\
    0 <= total_delay l <= 49 * Z.of_nat n /\
    stores_to OCR0A l = n /\ stores_to OCR0B l = n /\
    (forall r : ioreg, r <> OCR0A -> r <> OCR0B -> io m' r = io m r) /\
    (50 <= io m OCR0A <= 254 -> 50 <= io m' OCR0A <= 254) /\
    (50 <= io m OCR0B <= 254 -> 50 <= io m' OCR0B <= 254).
Proof.
  intros Hf. induction n as [|n IH]; intros m.
  - exists m, []. cbn [main_loop total_delay stores_to].
    rewrite app_nil_r. repeat split; auto; lia.
  - cbn [main_loop]. pose proof (loop_body_run fuel m Hf) as Hb.
    cbv zeta in Hb. rewrite Hb. clear Hb.
    set (d1 := lfsr_next (randreg m)). set (d2 := lfsr_next d1).
    set (d3 := lfsr_next d2).
    match goal with |- context [main_loop fuel n ?x] =>
      destruct (IH x) as
        [m' [l [Hrun [Ha [Hl [Ht [HsA [HsB [Hio [HA HB]]]]]]]]]] end.
    cbn [randreg io actions] in *.
    pose proof (Z.mod_pos_bound d3 50 ltac:(lia)) as Hd.
    pose proof (floor_duty_range d1) as F1.
    pose proof (floor_duty_range d2) as F2.
    exists m'.
    exists (([Out OCR0A (floor_duty d1); Out OCR0B (floor_duty d2)] ++
             repeat (Delay 1) (Z.to_nat (d3 mod 50))) ++ l).
    split; [exact Hrun|]. split; [now rewrite Ha, <- !app_assoc|].
    split.
    { apply Forall_app. split; [|exact Hl].
      apply Forall_app. split; [|apply loop_action_repeat].
      constructor; [apply loop_action_duty|].
      constructor; [apply loop_action_duty|]. constructor. }
    split.
    { rewrite !total_delay_app, total_delay_repeat.
      cbn [total_delay]. lia. }
    split.
    { rewrite !stores_to_app, stores_to_repeat.
      cbn [stores_to ioreg_eqb]. lia. }
    split.
    { rewrite !stores_to_app, stores_to_repeat.
      cbn [stores_to ioreg_eqb]. lia. }
    split.
    { intros r HrA HrB. rewrite Hio by assumption. rewrite !upd_get.
      destruct r; cbn [ioreg_eqb]; congruence. }
    split.
    { intros _. apply HA. rewrite !upd_get. cbn [ioreg_eqb]. exact F1. }
    { intros _. apply HB. rewrite !upd_get. cbn [ioreg_eqb]. exact F2. }
Qed.

(** X4: the loop only ever stores duty cycles and waits.  Whatever the
    number of passes, each ends, everything it does is a store of a value in
    [50, 254] to a compare register or a one-millisecond wait, and the port,
    direction and timer control registers are left as they were. *)
Theorem main_loop_only_sets_duty_and_waits (fuel n : nat) (m : machine) :
  (50 <= fuel)%nat ->
  exists (m' : machine) (l : list action),
    main_loop fuel n m = Some m' /\
    actions m' = actions m ++ l /\
    Forall (fun a => loop_action a = true) l /\
    io m' DDRB = io m DDRB /\ io m' PORTB = io m PORTB /\
    io m' TCCR0A = io m TCCR0A /\ io m' TCCR0B = io m TCCR0B.
Proof.
  intros Hf.
  destruct (main_loop_run fuel Hf n m) as
    [m' [l [Hrun [Ha [Hl [_ [_ [_ [Hio _]]]]]]]]].
  exists m', l. repeat split; auto; apply Hio; discriminate.
Qed.

Lemma main_loop_only_sets_duty_and_waits_witness :
  (50 <= 50)%nat /\
  exists (m' : machine) (l : list action),
    main_loop 50 2 power_on = Some m' /\
    actions m' = actions power_on ++ l /\
    Forall (fun a => loop_action a = true) l /\
    io m' DDRB = io power_on DDRB /\ io m' PORTB = io power_on PORTB /\
    io m' TCCR0A = io power_on TCCR0A /\ io m' TCCR0B = io power_on TCCR0B.
Proof.
  split.
  - lia.
  - apply (main_loop_only_sets_duty_and_waits 50 2 power_on). lia.
Defined.

(** ** The whole of [main] *)

Lemma startup_measures (m : machine) :
  exists l : list action,
    actions (exec startup m) = actions m ++ l /\
    Forall (fun a => duty_store_ok a = true) l /\
    total_delay l = 1600 /\
    stores_to OCR0A l = 1%nat /\ stores_to OCR0B l = 1%nat /\
    io (exec startup m) OCR0A = 50 /\ io (exec startup m) OCR0B = 50.
Proof.
  destruct m as [s i a]. pose proof (startup_run s i a) as Hrun.
  cbv zeta in Hrun. destruct Hrun as [i' [Hrun [_ [_ [_ [_ [HA HB]]]]]]].
  rewrite Hrun. cbn [actions io]. eexists. split; [reflexivity|].
  split; [repeat constructor|]. repeat split; assumption || reflexivity.
Qed.

(** X5: once [main] runs, no duty cycle below the floor is ever stored.
    After the startup and any number of passes, every store to a compare
    register so far had a value in [50, 254], and both registers hold such a
    value. *)
Theorem main_duty_never_below_floor (fuel n : nat) (m : machine) :
  (50 <= fuel)%nat ->
  exists (m' : machine) (l : list action),
    main fuel n m = Some m' /\
    actions m' = actions m ++ l /\
    Forall (fun a => duty_store_ok a = true) l /\
    LAMP_MIN_PWM <= io m' OCR0A <= 254 /\
    LAMP_MIN_PWM <= io m' OCR0B <= 254.
Proof.
  intros Hf. unfold main, LAMP_MIN_PWM.
  destruct (startup_measures m) as [l0 [Ha0 [Hl0 [_ [_ [_ [HA0 HB0]]]]]]].
  destruct (main_loop_run fuel Hf n (exec startup m)) as
    [m' [l [Hrun [Ha [Hl [_ [_ [_ [_ [HA HB]]]]]]]]]].
  exists m', (l0 ++ l). split; [exact Hrun|].
  split; [now rewrite Ha, Ha0, app_assoc|]. split.
  - apply Forall_app. split; [exact Hl0|].
    revert Hl. apply Forall_impl. exact loop_action_duty_store_ok.
  - split; [apply HA|apply HB]; lia.
Qed.

Lemma main_duty_never_below_floor_witness :
  (50 <= 50)%nat /\
  exists (m' : machine) (l : list action),
    main 50 3 power_on = Some m' /\
    actions m' = actions power_on ++ l /\
    Forall (fun a => duty_store_ok a = true) l /\
    LAMP_MIN_PWM <= io m' OCR0A <= 254 /\
    LAMP_MIN_PWM <= io m' OCR0B <= 254.
Proof.
  split.
  - lia.
  - apply (main_duty_never_below_floor 50 3 power_on). lia.
Defined.

(** X6: the time and the stores of a run.  Up to the end of its [n]-th
    pass, [main] has waited at least 1600 ms and at most [1600 + 49 * n] ms
    in all, and has stored to each compare register exactly [n + 1]
    times. *)
Theorem main_waits_and_stores (fuel n : nat) (m : machine) :
  (50 <= fuel)%nat ->
  exists (m' : machine) (l : list action),
    main fuel n m = Some m' /\
    actions m' = actions m ++ l /\
    1600 <= total_delay l <= 1600 + 49 * Z.of_nat n /\
    stores_to OCR0A l = S n /\ stores_to OCR0B l = S n.
Proof.
  intros Hf. unfold main.
  destruct (startup_measures m) as [l0 [Ha0 [_ [Ht0 [HsA0 [HsB0 _]]]]]].
  destruct (main_loop_run fuel Hf n (exec startup m)) as
    [m' [l [Hrun [Ha [_ [Ht [HsA [HsB _]]]]]]]].
  exists m', (l0 ++ l). split; [exact Hrun|].
  split; [now rewrite Ha, Ha0, app_assoc|].
  rewrite total_delay_app, !stores_to_app. lia.
Qed.

Lemma main_waits_and_stores_witness :
  (50 <= 50)%nat /\
  exists (m' : machine) (l : list action),
    main 50 3 power_on = Some m' /\
    actions m' = actions power_on ++ l /\
    1600 <= total_delay l <= 1600 + 49 * Z.of_nat 3 /\
    stores_to OCR0A l = 4%nat /\ stores_to OCR0B l = 4%nat.
Proof.
  split.
  - lia.
  - apply (main_waits_and_stores 50 3 power_on). lia.
Defined.

(** X7: the startup sets the timer control bits and clears none.  In
    [TCCR0A] it sets [COM0A1], [COM0B1], [WGM00] and [WGM01], in [TCCR0B] it
    sets [CS00] and [CS02]; every other bit of the two registers keeps the
    value it had.  From registers that hold 0 the result is [0xA3] and
    [0x05]. *)
Theorem startup_configures_timer (m : machine) (k : Z) :
  0 <= k < 8 ->
  let m' := exec startup m in
  Z.testbit (io m' TCCR0A) k =
    Z.testbit (io m TCCR0A) k
    || (COM0A1 =? k) || (COM0B1 =? k) || (WGM00 =? k) || (WGM01 =? k) /\
  Z.testbit (io m' TCCR0B) k =
    Z.testbit (io m TCCR0B) k || (CS00 =? k) || (CS02 =? k) /\
  (io m TCCR0A = 0 -> io m' TCCR0A = 0xA3) /\
  (io m TCCR0B = 0 -> io m' TCCR0B = 0x05).
Proof.
  intros Hk. cbv zeta. destruct m as [s i a].
  pose proof (startup_run s i a) as Hrun. cbv zeta in Hrun.
  destruct Hrun as [i' [Hrun [_ [_ [HA [HB _]]]]]].
  rewrite Hrun. cbn [io]. rewrite HA, HB.
  rewrite !testbit_set_bit by (assumption || bit_numbers).
  repeat split; try reflexivity; intros ->; reflexivity.
Qed.

Lemma startup_configures_timer_witness :
  0 <= 7 < 8 /\
  io power_on TCCR0A = 0 /\ io power_on TCCR0B = 0 /\
  Z.testbit (io (exec startup power_on) TCCR0A) 7 = true /\
  io (exec startup power_on) TCCR0A = 0xA3 /\
  io (exec startup power_on) TCCR0B = 0x05.
Proof.
  split; [lia|]. split; [reflexivity|]. split; [reflexivity|].
  pose proof (startup_configures_timer power_on 7 ltac:(lia)) as H.
  cbv zeta in H. destruct H as [H7 [_ [HA HB]]].
  split; [exact H7|]. split; [apply HA|apply HB]; reflexivity.
Defined.

(** Strips the bit operations off a byte whose bit is looked up, given that
    setting ([Hs]) and clearing ([Hc]) do not affect that bit. *)
Ltac peel_bits Hs Hc :=
  repeat match goal with
    | |- Z.testbit (set_bit _ _) _ = _ =>
        etransitivity; [apply Hs; assumption|]
    | |- Z.testbit (clear_bit _ _) _ = _ =>
        etransitivity; [apply Hc; assumption|]
    end;
  reflexivity.

(** X8: the startup leaves the other pins of port B alone.  For each of the
    bits 2 to 7, every value it stores to [PORTB] and to [DDRB] has the bit
    as the register had it on entry, and so have the two registers at the
    end. *)
Theorem startup_keeps_other_pins (m : machine) (k : Z) :
  2 <= k < 8 ->
  let m' := exec startup m in
  exists l : list action,
    actions m' = actions m ++ l /\
    Forall (fun a =>
              match a with
              | Out PORTB v => Z.testbit v k = Z.testbit (io m PORTB) k
              | Out DDRB v => Z.testbit v k = Z.testbit (io m DDRB) k
              | _ => True
              end) l /\
    Z.testbit (io m' PORTB) k = Z.testbit (io m PORTB) k /\
    Z.testbit (io m' DDRB) k = Z.testbit (io m DDRB) k.
Proof.
  intros Hk. cbv zeta. destruct m as [s i a].
  pose proof (startup_run s i a) as Hrun. cbv zeta in Hrun.
  destruct Hrun as [i' [Hrun [HD [HP _]]]].
  rewrite Hrun. cbn [io actions]. rewrite HD, HP.
  assert (E0 : (0 =? k) = false) by (apply Z.eqb_neq; lia).
  assert (E1 : (1 =? k) = false) by (apply Z.eqb_neq; lia).
  assert (Hset : forall v b, b = 0 \/ b = 1 ->
            Z.testbit (set_bit v b) k = Z.testbit v k).
  { intros v b [-> | ->]; rewrite testbit_set_bit by lia;
      rewrite ?E0, ?E1; apply orb_false_r. }
  assert (Hclr : forall v b, b = 0 \/ b = 1 ->
            Z.testbit (clear_bit v b) k = Z.testbit v k).
  { intros v b [-> | ->]; rewrite testbit_clear_bit by lia;
      rewrite ?E0, ?E1; apply andb_true_r. }
  assert (B0 : PB0 = 0 \/ PB0 = 1) by (left; reflexivity).
  assert (B1 : PB1 = 0 \/ PB1 = 1) by (right; reflexivity).
  assert (D0 : DDB0 = 0 \/ DDB0 = 1) by (left; reflexivity).
  assert (D1 : DDB1 = 0 \/ DDB1 = 1) by (right; reflexivity).
  eexists. split; [reflexivity|]. split; [|split].
  - repeat (apply Forall_cons; [first [exact I | peel_bits Hset Hclr]|]).
    apply Forall_nil.
  - peel_bits Hset Hclr.
  - peel_bits Hset Hclr.
Qed.

Lemma startup_keeps_other_pins_witness :
  2 <= 5 < 8 /\
  Z.testbit (io (exec startup (Machine 0 (fun _ => 0xFF) [])) PORTB) 5 =
  Z.testbit (io (Machine 0 (fun _ => 0xFF) []) PORTB) 5.
Proof.
  split; [lia|].
  pose proof (startup_keeps_other_pins (Machine 0 (fun _ => 0xFF) []) 5
                ltac:(lia)) as H.
  cbv zeta in H. destruct H as [l [_ [_ [HP _]]]]. exact HP.
Defined.

(** ** The counter of the delay loop *)

Lemma for_delay_wraps (d : Z) (fuel : nat) :
  256 <= d ->
  forall (i : Z) (m : machine),
    0 <= i < 256 -> for_delay fuel i d m = None.
Proof.
  intros Hd. induction fuel as [|fuel IH]; intros i m Hi; [reflexivity|].
  cbn [for_delay]. destruct (Z.ltb_spec i d) as [_|Hge]; [|lia].
  apply IH. pose proof (u8_range (i + 1)) as Hr. unfold is_u8 in Hr.
  change (2 ^ 8) with 256 in Hr. exact Hr.
Qed.

(** X9: the delay loop ends exactly when its bound fits the 8-bit counter.
    For a 16-bit bound below 256 it ends after that many one-millisecond
    waits and changes nothing else; for a bound from 256 on the counter
    wraps before reaching it and the loop never ends. *)
Theorem for_delay_ends_iff_bound_fits (d : Z) (m : machine) :
  0 <= d < 65536 ->
  if d <? 256
  then for_delay (S (Z.to_nat d)) 0 d m =
       Some (Machine (randreg m) (io m)
                     (actions m ++ repeat (Delay 1) (Z.to_nat d)))
  else forall fuel : nat, for_delay fuel 0 d m = None.
Proof.
  intros Hd. destruct (Z.ltb_spec d 256) as [Hlt|Hge].
  - rewrite for_delay_run by lia. now rewrite Z.sub_0_r.
  - intros fuel. apply for_delay_wraps; lia.
Qed.

Lemma for_delay_ends_iff_bound_fits_witness :
  0 <= 256 < 65536 /\
  forall fuel : nat, for_delay fuel 0 256 power_on = None.
Proof.
  split.
  - lia.
  - apply (for_delay_ends_iff_bound_fits 256 power_on). lia.
Defined.

(** ** What the loop inherits from the startup *)

Lemma startup_configuration (m : machine) :
  let m' := exec startup m in
  (Z.testbit (io m' DDRB) DDB0 = true /\
   Z.testbit (io m' DDRB) DDB1 = true) /\
  (lamp_0_lit (io m' PORTB) = false /\ lamp_1_lit (io m' PORTB) = false) /\
  (Z.testbit (io m' TCCR0A) COM0A1 = true /\
   Z.testbit (io m' TCCR0A) COM0B1 = true /\
   Z.testbit (io m' TCCR0A) WGM00 = true /\
   Z.testbit (io m' TCCR0A) WGM01 = true) /\
  (Z.testbit (io m' TCCR0B) CS00 = true /\
   Z.testbit (io m' TCCR0B) CS02 = true).
Proof.
  cbv zeta. destruct m as [s i a].
  pose proof (startup_run s i a) as Hrun. cbv zeta in Hrun.
  destruct Hrun as [i' [Hrun [HD [HP [HA [HB _]]]]]].
  rewrite Hrun. cbn [io]. rewrite HD, HP, HA, HB.
  unfold lamp_0_lit, lamp_1_lit, LAMP_0_PIN, LAMP_1_PIN.
  repeat split;
    repeat first [ rewrite testbit_set_bit by bit_numbers
                 | rewrite testbit_clear_bit by bit_numbers ];
    cbv [PB0 PB1 DDB0 DDB1 WGM00 WGM01 COM0A1 COM0B1 CS00 CS02
         Z.eqb Pos.eqb negb];
    rewrite ?orb_true_r, ?andb_false_r; reflexivity.
Qed.

(** X10: the loop runs on what the startup configured.  After the startup
    and any number of passes both lamp pins are still outputs, both port
    bits are still cleared, and the timer control bits that select the PWM
    mode, the two outputs and the prescaler are still set. *)
Theorem main_keeps_configuration (fuel n : nat) (m : machine) :
  (50 <= fuel)%nat ->
  exists m' : machine,
    main fuel n m = Some m' /\
    (Z.testbit (io m' DDRB) DDB0 = true /\
     Z.testbit (io m' DDRB) DDB1 = true) /\
    (lamp_0_lit (io m' PORTB) = false /\ lamp_1_lit (io m' PORTB) = false) /\
    (Z.testbit (io m' TCCR0A) COM0A1 = true /\
     Z.testbit (io m' TCCR0A) COM0B1 = true /\
     Z.testbit (io m' TCCR0A) WGM00 = true /\
     Z.testbit (io m' TCCR0A) WGM01 = true) /\
    (Z.testbit (io m' TCCR0B) CS00 = true /\
     Z.testbit (io m' TCCR0B) CS02 = true).
Proof.
  intros Hf. unfold main.
  destruct (main_loop_run fuel Hf n (exec startup m)) as
    [m' [l [Hrun [_ [_ [_ [_ [_ [Hio _]]]]]]]]].
  exists m'. split; [exact Hrun|].
  rewrite !Hio by discriminate. apply startup_configuration.
Qed.

Lemma main_keeps_configuration_witness :
  (50 <= 50)%nat /\
  exists m' : machine,
    main 50 2 power_on = Some m' /\
    (Z.testbit (io m' DDRB) DDB0 = true /\
     Z.testbit (io m' DDRB) DDB1 = true) /\
    (lamp_0_lit (io m' PORTB) = false /\ lamp_1_lit (io m' PORTB) = false) /\
    (Z.testbit (io m' TCCR0A) COM0A1 = true /\
     Z.testbit (io m' TCCR0A) COM0B1 = true /\
     Z.testbit (io m' TCCR0A) WGM00 = true /\
     Z.testbit (io m' TCCR0A) WGM01 = true) /\
    (Z.testbit (io m' TCCR0B) CS00 = true /\
     Z.testbit (io m' TCCR0B) CS02 = true).
Proof.
  split.
  - lia.
  - apply (main_keeps_configuration 50 2 power_on). lia.
Defined.

(** X11: the duty-cycle derivation uses its whole range.  For every value
    [v] in [50, 254] and from any 16-bit state, there is a number of draws
    below 65535 after which [get_duty_cycle] returns [v]. *)
Theorem get_duty_cycle_reaches_every_duty (m : machine) (v : Z) :
  is_u16 (randreg m) ->
  LAMP_MIN_PWM <= v <= 254 ->
  exists k : nat,
    (k < Z.to_nat 65535)%nat /\
    eval get_duty_cycle (exec (draws k) m) = v.
Proof.
  unfold LAMP_MIN_PWM. intros Hs Hv.
  destruct (lfsr_reaches (randreg m) v Hs ltac:(lia)) as [k [Hk Ek]].
  exists k. split; [exact Hk|].
  unfold eval, exec. rewrite draws_run, get_duty_cycle_run.
  cbn [fst snd randreg]. rewrite <- Nat.iter_succ, Ek.
  unfold floor_duty. rewrite Z.mod_small by lia. lia.
Qed.

Lemma get_duty_cycle_reaches_every_duty_witness :
  is_u16 (randreg power_on) /\ LAMP_MIN_PWM <= 254 <= 254 /\
  exists k : nat,
    (k < Z.to_nat 65535)%nat /\
    eval get_duty_cycle (exec (draws k) power_on) = 254.
Proof.
  split; [unfold is_u16; cbn; lia|].
  split; [unfold LAMP_MIN_PWM; lia|].
  apply (get_duty_cycle_reaches_every_duty power_on 254).
  - unfold is_u16; cbn; lia.
  - unfold LAMP_MIN_PWM; lia.
Defined.

(** X12: the flicker repeats after 21845 passes.  Each pass takes three
    draws and the generator has period 65535, so from a non-zero 16-bit
    state [randreg] is back at its value after exactly 21845 passes of the
    loop and differs from it after any smaller positive number of passes. *)
Theorem main_loop_repeats_after_21845_passes (fuel : nat) (m : machine) :
  (50 <= fuel)%nat ->
  1 <= randreg m < 65536 ->
  (exists m' : machine,
     main_loop fuel (Z.to_nat 21845) m = Some m' /\
     randreg m' = randreg m) /\
  forall n : nat,
    (0 < n < Z.to_nat 21845)%nat ->
    exists m' : machine,
      main_loop fuel n m = Some m' /\ randreg m' <> randreg m.
Proof.
  intros Hf Hs.
  destruct (lfsr_period_on_cycle (randreg m) Hs) as [Hp Hmin]. split.
  - destruct (main_loop_randreg fuel (Z.to_nat 21845) Hf m)
      as [m' [Hrun Hreg]].
    exists m'. split; [exact Hrun|]. rewrite Hreg.
    replace (3 * Z.to_nat 21845)%nat with lfsr_period
      by (unfold lfsr_period; lia).
    exact Hp.
  - intros n Hn.
    destruct (main_loop_randreg fuel n Hf m) as [m' [Hrun Hreg]].
    exists m'. split; [exact Hrun|]. rewrite Hreg.
    apply Hmin. unfold lfsr_period. lia.
Qed.

Lemma main_loop_repeats_after_21845_passes_witness :
  (50 <= 50)%nat /\
  1 <= randreg (Machine 1 (fun _ => 0) []) < 65536 /\
  exists m' : machine,
    main_loop 50 1 (Machine 1 (fun _ => 0) []) = Some m' /\
    randreg m' <> randreg (Machine 1 (fun _ => 0) []).
Proof.
  split; [lia|]. split; [cbn; lia|].
  apply (main_loop_repeats_after_21845_passes 50 (Machine 1 (fun _ => 0) []));
    [lia | cbn; lia | lia].
Defined.
